(** * machbase/neo-spi: the column model and the error sentinels

    A shallow embedding of the executable part of package [spi]:
    the methods of [Columns] (database.go) and the two package-level
    error values.  Everything else in the package is an interface or a
    plain struct declaration and carries no behaviour. *)

From Stdlib Require Import ZArith Ascii String.
From stdpp Require Import base option list strings.


(** ** Go run-time notions the package relies on *)

Module Go.

(** A run-time panic (nil dereference, index out of range) is [None]. *)
Definition panics {A} (r : option A) : Prop := r = None.

(** [make([]T, n)]: a slice of [n] zero values. *)
Definition make {A} (zero : A) (n : nat) : list A := replicate n zero.

(** [s[i] = v]: the store panics when [i] is out of range. *)
Definition store {A} (s : list A) (i : nat) (v : A) : option (list A) :=
  if Nat.ltb i (length s) then Some (<[i:=v]> s) else None.

(** [s[i]] for a slice of pointers followed by a field selection: the
    index is checked first, then the pointer is dereferenced. *)
Definition deref {A} (s : list (option A)) (i : nat) : option A :=
  p ← s !! i; p.

(** [for i := range s { body }] over the indices [k, k+1, ..., k+n-1];
    the loop state is threaded through and a panic in the body ends
    the run. *)
Fixpoint range_from {St} (body : nat → St → option St) (k n : nat) (s : St)
  : option St :=
  match n with
  | 0 => Some s
  | S n' => s' ← body k s; range_from body (S k) n' s'
  end.

Definition range {St} (n : nat) (body : nat → St → option St) (s : St)
  : option St :=
  range_from body 0 n s.

(** The pointee types handed to [new] in this package.  [byte] is an
    alias of [uint8]; [net.IP] is a named type distinct from [[]byte]. *)
Inductive type :=
| int16 | int32 | int64 | uint8
| float32 | float64
| time_Time | net_IP
| string_ | bytes | bool_.

(** A value of interface type [any] as stored in a scan buffer: the nil
    interface, or a pointer to a zeroed cell obtained from [new(T)]. The
    address of the cell is left out; only its dynamic type is kept. *)
Inductive any :=
| Nil
| New (T : type).

(** The storage kind of a slot: the pointee type, none for nil. *)
Definition kind (v : any) : option type :=
  match v with
  | Nil => None
  | New T => Some T
  end.

(** [*time.Location], reduced to what [String] reads: the zone name. *)
Record Location := { loc_name : string }.

(** The [String] method of a [Location] pointer: nil stands for UTC. *)
Definition Location_String (tz : option Location) : string :=
  match tz with
  | None => "UTC"
  | Some l => loc_name l
  end.

(** [fmt.Sprintf("%s(%s)", a, b)] on two string operands. *)
Definition Sprintf_s_paren_s (a b : string) : string :=
  a +:+ "(" +:+ b +:+ ")".

(** Package [errors].  [errors.New] returns a pointer to a freshly allocated
    [errorString]; the heap is the list of cells allocated so far and an
    address is a position in it. *)
Record errorString := { s : string }.

Definition heap := list errorString.

(** A value of interface type [error]: nil, or a pointer to an
    [errorString] cell. *)
Definition error := option nat.

Definition errors_New (text : string) (h : heap) : error * heap :=
  (Some (length h), (h ++ [{| s := text |}])%list).

(** The [Error] method: reads the text behind the pointer. *)
Definition Error (e : error) (h : heap) : option string :=
  a ← e; c ← h !! a; Some (s c).

(** [e1 == e2] on interface values holding pointers: the addresses are
    compared, the cells are never read. *)
Definition error_eq (e1 e2 : error) : bool :=
  match e1, e2 with
  | None, None => true
  | Some a1, Some a2 => Nat.eqb a1 a2
  | _, _ => false
  end.

End Go.

(** ** database.go *)

Record Column := {
  Name : string;
  Type_ : string;
  Size : Z;
  Length : Z
}.

(** [type Columns []*Column]: an entry may be the nil pointer. *)
Definition Columns := list (option Column).

Definition Names (cols : Columns) : option (list string) :=
  let names := Go.make "" (length cols) in
  Go.range (length cols) (λ i names,
    c ← Go.deref cols i;
    Go.store names i (Name c)) names.

Definition NamesWithTimeLocation (cols : Columns) (tz : option Go.Location)
  : option (list string) :=
  let names := Go.make "" (length cols) in
  Go.range (length cols) (λ i names,
    c ← Go.deref cols i;
    if String.eqb (Type_ c) "datetime" then
      Go.store names i (Go.Sprintf_s_paren_s (Name c) (Go.Location_String tz))
    else
      Go.store names i (Name c)) names.

Definition Types (cols : Columns) : option (list string) :=
  let types := Go.make "" (length cols) in
  Go.range (length cols) (λ i types,
    c ← Go.deref cols i;
    Go.store types i (Type_ c)) types.

Definition ColumnBufferTypeInt16 := "int16".
Definition ColumnBufferTypeInt32 := "int32".
Definition ColumnBufferTypeInt64 := "int64".
Definition ColumnBufferTypeDatetime := "datetime".
Definition ColumnBufferTypeFloat := "float".
Definition ColumnBufferTypeDouble := "double".
Definition ColumnBufferTypeIPv4 := "ipv4".
Definition ColumnBufferTypeIPv6 := "ipv6".
Definition ColumnBufferTypeString := "string".
Definition ColumnBufferTypeBinary := "binary".
Definition ColumnBufferTypeBoolean := "bool".
Definition ColumnBufferTypeByte := "int8".

(** The twelve tags of the constant block, in declaration order. *)
Definition supported_tags : list string :=
  [ ColumnBufferTypeInt16; ColumnBufferTypeInt32; ColumnBufferTypeInt64;
    ColumnBufferTypeDatetime; ColumnBufferTypeFloat; ColumnBufferTypeDouble;
    ColumnBufferTypeIPv4; ColumnBufferTypeIPv6; ColumnBufferTypeString;
    ColumnBufferTypeBinary; ColumnBufferTypeBoolean; ColumnBufferTypeByte ].

(** The [switch] of [MakeBuffer]: cases are tried top to bottom, there is
    no default, so an unmatched tag leaves [rec] as it is. *)
Definition MakeBuffer_switch (ty : string) (i : nat) (rec : list Go.any)
  : option (list Go.any) :=
  if String.eqb ty "int16" then Go.store rec i (Go.New Go.int16)
  else if String.eqb ty "int32" then Go.store rec i (Go.New Go.int32)
  else if String.eqb ty "int64" then Go.store rec i (Go.New Go.int64)
  else if String.eqb ty "datetime" then Go.store rec i (Go.New Go.time_Time)
  else if String.eqb ty "float" then Go.store rec i (Go.New Go.float32)
  else if String.eqb ty "double" then Go.store rec i (Go.New Go.float64)
  else if String.eqb ty "ipv4" then Go.store rec i (Go.New Go.net_IP)
  else if String.eqb ty "ipv6" then Go.store rec i (Go.New Go.net_IP)
  else if String.eqb ty "string" then Go.store rec i (Go.New Go.string_)
  else if String.eqb ty "binary" then Go.store rec i (Go.New Go.bytes)
  else if String.eqb ty "bool" then Go.store rec i (Go.New Go.bool_)
  else if String.eqb ty "int8" then Go.store rec i (Go.New Go.uint8)
  else Some rec.

Definition MakeBuffer (cols : Columns) : option (list Go.any) :=
  let rec := Go.make Go.Nil (length cols) in
  Go.range (length cols) (λ i rec,
    c ← Go.deref cols i;
    MakeBuffer_switch (Type_ c) i rec) rec.

(** ** The package-level error values *)

(** [var ErrUserCancel error] and [var ErrNotImplemented]. *)
Record vars := {
  ErrUserCancel : Go.error;
  ErrNotImplemented : Go.error
}.

(** Package initialisation: the two initialisers run once, in order. *)
Definition init (h : Go.heap) : vars * Go.heap :=
  let '(e1, h1) := Go.errors_New "user cancel" h in
  let '(e2, h2) := Go.errors_New "not implemented" h1 in
  ({| ErrUserCancel := e1; ErrNotImplemented := e2 |}, h2).

(** ** Notions used to state the properties *)

(** Every entry of the sequence points to a [Column]. *)
Definition no_nil (cols : Columns) : Prop := Forall is_Some cols.

(** The tag to storage-kind table as the specification words it:
    int16 a 16-bit signed integer, int32 a 32-bit signed integer, int64 a
    64-bit signed integer, int8 an 8-bit unsigned integer, float a 32-bit
    float, double a 64-bit float, datetime a timestamp, ipv4 and ipv6 an IP
    address, string a text, binary a byte sequence, bool a boolean. *)
Definition spec_storage_map : list (string * Go.type) :=
  [ ("int16", Go.int16); ("int32", Go.int32); ("int64", Go.int64);
    ("int8", Go.uint8); ("float", Go.float32); ("double", Go.float64);
    ("datetime", Go.time_Time); ("ipv4", Go.net_IP); ("ipv6", Go.net_IP);
    ("string", Go.string_); ("binary", Go.bytes); ("bool", Go.bool_) ].

Fixpoint assoc {V} (k : string) (m : list (string * V)) : option V :=
  match m with
  | [] => None
  | (k', v) :: m' => if String.eqb k k' then Some v else assoc k m'
  end.

Definition spec_storage_kind (tag : string) : option Go.type :=
  assoc tag spec_storage_map.

(** ASCII case folding, to say that two tags differ only in letter case. *)
Definition lower_ascii (a : ascii) : ascii :=
  let n := nat_of_ascii a in
  if Nat.leb 65 n && Nat.leb n 90 then ascii_of_nat (n + 32) else a.

Fixpoint lower (t : string) : string :=
  match t with
  | EmptyString => EmptyString
  | String a t' => String (lower_ascii a) (lower t')
  end.

(** [t] is a near miss of the supported tag [tag]: it is not [tag] itself,
    but [tag] shows up inside it once letter case is ignored, possibly with
    characters before and after. *)
Definition near_miss (tag t : string) : Prop :=
  t ≠ tag ∧ ∃ pre core post, t = pre +:+ core +:+ post ∧ lower core = tag.

(** The value the [switch] stores for a tag, if any. *)
Definition switch_value (ty : string) : option Go.any :=
  if String.eqb ty "int16" then Some (Go.New Go.int16)
  else if String.eqb ty "int32" then Some (Go.New Go.int32)
  else if String.eqb ty "int64" then Some (Go.New Go.int64)
  else if String.eqb ty "datetime" then Some (Go.New Go.time_Time)
  else if String.eqb ty "float" then Some (Go.New Go.float32)
  else if String.eqb ty "double" then Some (Go.New Go.float64)
  else if String.eqb ty "ipv4" then Some (Go.New Go.net_IP)
  else if String.eqb ty "ipv6" then Some (Go.New Go.net_IP)
  else if String.eqb ty "string" then Some (Go.New Go.string_)
  else if String.eqb ty "binary" then Some (Go.New Go.bytes)
  else if String.eqb ty "bool" then Some (Go.New Go.bool_)
  else if String.eqb ty "int8" then Some (Go.New Go.uint8)
  else None.

(** Sample data for concrete runs. *)
Definition sample_cols : Columns :=
  [ Some {| Name := "name"; Type_ := "string"; Size := 0; Length := 0 |};
    Some {| Name := "age"; Type_ := "int32"; Size := 4; Length := 0 |};
    Some {| Name := "ts"; Type_ := "datetime"; Size := 8; Length := 0 |};
    Some {| Name := "tag"; Type_ := "INT32"; Size := 4; Length := 0 |};
    Some {| Name := "pad"; Type_ := "int32 "; Size := 4; Length := 0 |} ].

Definition sample_other : Columns :=
  [ Some {| Name := "x"; Type_ := "double"; Size := 8; Length := 1 |};
    Some {| Name := "years"; Type_ := "int32"; Size := 40; Length := 7 |} ].

Definition Seoul : option Go.Location :=
  Some {| Go.loc_name := "Asia/Seoul" |}.

(** The columns of [sample_other] under other names, sizes and lengths. *)
Definition sample_renamed : Columns :=
  [ Some {| Name := "ratio"; Type_ := "double"; Size := 0; Length := 0 |};
    Some {| Name := "n"; Type_ := "int32"; Size := 4; Length := 2 |} ].

(** A sequence without any datetime column. *)
Definition sample_plain : Columns :=
  [ Some {| Name := "name"; Type_ := "string"; Size := 0; Length := 0 |};
    Some {| Name := "when"; Type_ := "Datetime"; Size := 8; Length := 0 |} ].

(** The columns behind the non-nil entries, in order. *)
Definition pointees (cols : Columns) : list Column := omap id cols.

(** ** Runs on concrete inputs *)

Example MakeBuffer_name_age :
  MakeBuffer [Some (Build_Column "name" "string" 0 0);
              Some (Build_Column "age" "int32" 0 0)]
  = Some [Go.New Go.string_; Go.New Go.int32].
Proof. reflexivity. Qed.

Example MakeBuffer_unknown_tag :
  MakeBuffer [Some (Build_Column "a" "INT32" 0 0);
              Some (Build_Column "b" "bool" 0 0)]
  = Some [Go.Nil; Go.New Go.bool_].
Proof. reflexivity. Qed.

Example MakeBuffer_nil_entry :
  MakeBuffer [Some (Build_Column "a" "int8" 0 0); None] = None.
Proof. reflexivity. Qed.

Example NamesWithTimeLocation_run :
  NamesWithTimeLocation
    [Some (Build_Column "ts" "datetime" 0 0);
     Some (Build_Column "v" "double" 0 0)]
    (Some {| Go.loc_name := "Asia/Seoul" |})
  = Some ["ts(Asia/Seoul)"; "v"].
Proof. reflexivity. Qed.

Example lower_run : lower "INT32 x" = "int32 x".
Proof. reflexivity. Qed.

(** ** The range loop *)

Lemma store_Some {A} (s : list A) i v old :
  s !! i = Some old → Go.store s i v = Some (<[i:=v]> s).
Proof.
  intros Hi. unfold Go.store.
  apply lookup_lt_Some in Hi. apply Nat.ltb_lt in Hi. by rewrite Hi.
Qed.

Lemma deref_Some {A} (s : list (option A)) i c :
  s !! i = Some (Some c) → Go.deref s i = Some c.
Proof. intros Hi. unfold Go.deref. by rewrite Hi. Qed.

Lemma deref_nil {A} (s : list (option A)) i :
  s !! i = Some None → Go.deref s i = None.
Proof. intros Hi. unfold Go.deref. by rewrite Hi. Qed.

Lemma no_nil_lookup {A} (cols : list (option A)) i :
  Forall is_Some cols → i < length cols → ∃ c, cols !! i = Some (Some c).
Proof.
  intros Hnn Hi. destruct (lookup_lt_is_Some_2 cols i Hi) as [p Hp].
  destruct (proj1 (Forall_lookup _ _) Hnn i p Hp) as [c ->]. eauto.
Qed.

(** A body that panics at index [i] makes every loop that reaches [i]
    panic. *)
Lemma range_from_panic {St} (body : nat → St → option St) i n k s :
  (∀ s, body i s = None) → k ≤ i < k + n → Go.range_from body k n s = None.
Proof.
  intros Hbody. revert k s. induction n as [|n IH]; intros k s Hk; [lia|].
  simpl. destruct (decide (k = i)) as [->|Hne].
  - by rewrite Hbody.
  - destruct (body k s) as [s'|]; [|done]. simpl. apply IH. lia.
Qed.

Section fill.
Context {A B : Type}.
Variable cols : list (option A).
Variable cell : A → B → B.
Variable body : nat → list B → option (list B).

(** The body overwrites position [i] with a value computed from the
    [i]-th entry and the old content, and touches nothing else. *)
Hypothesis body_ok : ∀ i s c old,
  cols !! i = Some (Some c) → s !! i = Some old →
  body i s = Some (<[i:=cell c old]> s).
Hypothesis cols_ok : Forall is_Some cols.

Lemma range_from_fill n : ∀ k s,
  length s = length cols → k + n ≤ length cols →
  ∃ s', Go.range_from body k n s = Some s' ∧ length s' = length cols ∧
    ∀ j c old, cols !! j = Some (Some c) → s !! j = Some old →
      s' !! j = Some (if bool_decide (k ≤ j < k + n) then cell c old else old).
Proof.
  induction n as [|n IH]; intros k s Hlen Hk.
  - exists s. split_and!; [done..|]. intros j c old _ Hj.
    rewrite bool_decide_eq_false_2; [done|lia].
  - destruct (no_nil_lookup cols k cols_ok) as [c0 Hc0]; [lia|].
    destruct (lookup_lt_is_Some_2 s k) as [old0 Hold0]; [lia|].
    simpl. rewrite (body_ok _ _ _ _ Hc0 Hold0). simpl.
    destruct (IH (S k) (<[k:=cell c0 old0]> s)) as (s' & Hrun & Hlen' & Hs').
    { by rewrite length_insert. }
    { lia. }
    exists s'. split_and!; [done..|]. intros j c old Hc Hold.
    destruct (decide (j = k)) as [->|Hne].
    + rewrite (Hs' k c (cell c0 old0) Hc).
      * rewrite bool_decide_eq_false_2; [|lia].
        rewrite bool_decide_eq_true_2; [|lia]. congruence.
      * apply list_lookup_insert_eq. by eapply lookup_lt_Some.
    + rewrite (Hs' j c old Hc).
      * by rewrite (bool_decide_ext (S k ≤ j < S k + n) (k ≤ j < k + S n)) by lia.
      * by rewrite list_lookup_insert_ne.
Qed.

Lemma range_fill zero :
  ∃ s', Go.range (length cols) body (Go.make zero (length cols)) = Some s' ∧
    length s' = length cols ∧
    ∀ j c, cols !! j = Some (Some c) → s' !! j = Some (cell c zero).
Proof.
  destruct (range_from_fill (length cols) 0 (Go.make zero (length cols)))
    as (s' & Hrun & Hlen & Hs').
  { apply length_replicate. }
  { lia. }
  exists s'. split_and!; [done..|]. intros j c Hc.
  assert (j < length cols) by by eapply lookup_lt_Some.
  rewrite (Hs' j c zero Hc).
  - rewrite bool_decide_eq_true_2; [done|lia].
  - by apply lookup_replicate_2.
Qed.
End fill.

(** ** The tag switch *)

Lemma supported_tags_cases tag :
  tag ∈ supported_tags ↔
  tag = "int16" ∨ tag = "int32" ∨ tag = "int64" ∨ tag = "datetime" ∨
  tag = "float" ∨ tag = "double" ∨ tag = "ipv4" ∨ tag = "ipv6" ∨
  tag = "string" ∨ tag = "binary" ∨ tag = "bool" ∨ tag = "int8".
Proof.
  unfold supported_tags. rewrite !elem_of_cons, elem_of_nil.
  unfold ColumnBufferTypeInt16, ColumnBufferTypeInt32, ColumnBufferTypeInt64,
    ColumnBufferTypeDatetime, ColumnBufferTypeFloat, ColumnBufferTypeDouble,
    ColumnBufferTypeIPv4, ColumnBufferTypeIPv6, ColumnBufferTypeString,
    ColumnBufferTypeBinary, ColumnBufferTypeBoolean, ColumnBufferTypeByte.
  tauto.
Qed.

Ltac each_tag H :=
  apply supported_tags_cases in H;
  repeat (destruct H as [H|H]); subst.

Lemma MakeBuffer_switch_value ty i rec :
  MakeBuffer_switch ty i rec =
  match switch_value ty with
  | Some v => Go.store rec i v
  | None => Some rec
  end.
Proof.
  unfold MakeBuffer_switch, switch_value.
  repeat (destruct (String.eqb ty _); [reflexivity|]). reflexivity.
Qed.

Lemma switch_value_supported tag :
  tag ∈ supported_tags →
  ∃ k, spec_storage_kind tag = Some k ∧ switch_value tag = Some (Go.New k).
Proof. intros H. each_tag H; eexists; split; reflexivity. Qed.

Lemma switch_value_unsupported ty :
  ty ∉ supported_tags → switch_value ty = None.
Proof.
  intros H. unfold switch_value.
  repeat match goal with
  | |- context [String.eqb ty ?t] =>
      destruct (String.eqb_spec ty t) as [->|_];
      [exfalso; apply H; rewrite supported_tags_cases; tauto|]
  end.
  reflexivity.
Qed.

(** ** What each method returns *)

Lemma Names_spec cols :
  no_nil cols →
  ∃ names, Names cols = Some names ∧ length names = length cols ∧
    ∀ j c, cols !! j = Some (Some c) → names !! j = Some (Name c).
Proof.
  intros Hnn. unfold Names.
  apply (range_fill cols (λ c _, Name c)); [|done].
  intros i s c old Hc Hold. rewrite (deref_Some _ _ _ Hc). simpl.
  by eapply store_Some.
Qed.

Lemma Types_spec cols :
  no_nil cols →
  ∃ types, Types cols = Some types ∧ length types = length cols ∧
    ∀ j c, cols !! j = Some (Some c) → types !! j = Some (Type_ c).
Proof.
  intros Hnn. unfold Types.
  apply (range_fill cols (λ c _, Type_ c)); [|done].
  intros i s c old Hc Hold. rewrite (deref_Some _ _ _ Hc). simpl.
  by eapply store_Some.
Qed.

Lemma NamesWithTimeLocation_spec cols tz :
  no_nil cols →
  ∃ names, NamesWithTimeLocation cols tz = Some names ∧
    length names = length cols ∧
    ∀ j c, cols !! j = Some (Some c) →
      names !! j =
      Some (if String.eqb (Type_ c) "datetime"
            then Go.Sprintf_s_paren_s (Name c) (Go.Location_String tz)
            else Name c).
Proof.
  intros Hnn. unfold NamesWithTimeLocation.
  apply (range_fill cols
    (λ c _, if String.eqb (Type_ c) "datetime"
            then Go.Sprintf_s_paren_s (Name c) (Go.Location_String tz)
            else Name c)); [|done].
  intros i s c old Hc Hold. rewrite (deref_Some _ _ _ Hc). simpl.
  destruct (String.eqb (Type_ c) "datetime"); by eapply store_Some.
Qed.

Lemma MakeBuffer_spec cols :
  no_nil cols →
  ∃ rec, MakeBuffer cols = Some rec ∧ length rec = length cols ∧
    ∀ j c, cols !! j = Some (Some c) →
      rec !! j = Some (default Go.Nil (switch_value (Type_ c))).
Proof.
  intros Hnn. unfold MakeBuffer.
  apply (range_fill cols (λ c old, default old (switch_value (Type_ c))));
    [|done].
  intros i s c old Hc Hold. rewrite (deref_Some _ _ _ Hc). simpl.
  rewrite MakeBuffer_switch_value.
  destruct (switch_value (Type_ c)) as [v|]; simpl.
  - by eapply store_Some.
  - by rewrite list_insert_id.
Qed.

(** A nil entry makes all four methods panic on the field selection. *)
Lemma nil_entry_panics cols i tz :
  cols !! i = Some None →
  Go.panics (Names cols) ∧ Go.panics (Types cols) ∧
  Go.panics (MakeBuffer cols) ∧ Go.panics (NamesWithTimeLocation cols tz).
Proof.
  intros Hi. assert (0 ≤ i < 0 + length cols).
  { apply lookup_lt_Some in Hi. lia. }
  split_and!; apply range_from_panic with (i := i); try done;
    intros s; by rewrite (deref_nil _ _ Hi).
Qed.

Ltac solve_no_nil :=
  unfold no_nil; repeat (apply Forall_cons_2; [by eexists|]); apply Forall_nil_2.

(** ** Properties of the column model *)

(** C1. For every column sequence and every column in it whose [Type] is
    one of the twelve supported tags, [MakeBuffer] returns a buffer whose
    slot at that column's index is a pointer to a cell of the kind the
    specification's table gives for the tag; the table has an entry for
    each of the twelve tags. *)
Theorem MakeBuffer_supported_slot (cols : Columns) (i : nat) (c : Column) :
  no_nil cols →
  cols !! i = Some (Some c) →
  Type_ c ∈ supported_tags →
  ∃ k rec,
    spec_storage_kind (Type_ c) = Some k ∧
    MakeBuffer cols = Some rec ∧
    rec !! i = Some (Go.New k).
Proof.
  intros Hnn Hc Htag.
  destruct (MakeBuffer_spec cols Hnn) as (rec & Hrun & _ & Hrec).
  destruct (switch_value_supported _ Htag) as (k & Hk & Hv).
  exists k, rec. split_and!; [done..|].
  rewrite (Hrec i c Hc), Hv. done.
Qed.

Lemma MakeBuffer_supported_slot_witness :
  no_nil sample_cols ∧
  sample_cols !! 1 = Some (Some {| Name := "age"; Type_ := "int32";
                                   Size := 4; Length := 0 |}) ∧
  "int32" ∈ supported_tags ∧
  ∃ k rec,
    spec_storage_kind "int32" = Some k ∧
    MakeBuffer sample_cols = Some rec ∧
    rec !! 1 = Some (Go.New k).
Proof.
  assert (Hnn : no_nil sample_cols) by solve_no_nil.
  assert (Htag : "int32" ∈ supported_tags).
  { apply supported_tags_cases. tauto. }
  split_and!; [done..|].
  exact (MakeBuffer_supported_slot sample_cols 1 _ Hnn eq_refl Htag).
Defined.

(** C2. For every column sequence, [Names], [Types] and [MakeBuffer]
    return, and each result has exactly as many entries as the sequence
    has columns. *)
Theorem Names_Types_MakeBuffer_length (cols : Columns) :
  no_nil cols →
  ∃ names types rec,
    Names cols = Some names ∧ Types cols = Some types ∧
    MakeBuffer cols = Some rec ∧
    length names = length cols ∧ length types = length cols ∧
    length rec = length cols.
Proof.
  intros Hnn.
  destruct (Names_spec cols Hnn) as (names & ? & ? & _).
  destruct (Types_spec cols Hnn) as (types & ? & ? & _).
  destruct (MakeBuffer_spec cols Hnn) as (rec & ? & ? & _).
  by exists names, types, rec.
Qed.

Lemma Names_Types_MakeBuffer_length_witness :
  no_nil sample_cols ∧
  ∃ names types rec,
    Names sample_cols = Some names ∧ Types sample_cols = Some types ∧
    MakeBuffer sample_cols = Some rec ∧
    length names = 5 ∧ length types = 5 ∧ length rec = 5.
Proof.
  assert (Hnn : no_nil sample_cols) by solve_no_nil.
  split; [done|]. exact (Names_Types_MakeBuffer_length sample_cols Hnn).
Defined.

(** C3. For every column sequence, every time zone and every index: the
    entry of [NamesWithTimeLocation] for a column of type "datetime" is the
    column name followed by the zone label in parentheses; for a column of
    any other type it is the bare name, the same as the entry of [Names]. *)
Theorem NamesWithTimeLocation_entry
    (cols : Columns) (tz : option Go.Location) (i : nat) (c : Column) :
  no_nil cols →
  cols !! i = Some (Some c) →
  ∃ shown names,
    NamesWithTimeLocation cols tz = Some shown ∧
    Names cols = Some names ∧
    (Type_ c = "datetime" →
       shown !! i = Some (Name c +:+ "(" +:+ Go.Location_String tz +:+ ")")) ∧
    (Type_ c ≠ "datetime" →
       shown !! i = Some (Name c) ∧ shown !! i = names !! i).
Proof.
  intros Hnn Hc.
  destruct (NamesWithTimeLocation_spec cols tz Hnn) as (shown & ? & _ & Hs).
  destruct (Names_spec cols Hnn) as (names & ? & _ & Hn).
  exists shown, names. split_and!; [done..| |].
  - intros Hty. rewrite (Hs i c Hc), Hty. done.
  - intros Hty. rewrite (Hs i c Hc), (Hn i c Hc).
    destruct (String.eqb_spec (Type_ c) "datetime"); done.
Qed.

Lemma NamesWithTimeLocation_entry_witness :
  no_nil sample_cols ∧
  ∃ shown names,
    NamesWithTimeLocation sample_cols Seoul = Some shown ∧
    Names sample_cols = Some names ∧
    ("datetime" = "datetime" → shown !! 2 = Some "ts(Asia/Seoul)") ∧
    ("datetime" ≠ "datetime" →
       shown !! 2 = Some "ts" ∧ shown !! 2 = names !! 2).
Proof.
  assert (Hnn : no_nil sample_cols) by solve_no_nil.
  split; [done|].
  exact (NamesWithTimeLocation_entry sample_cols Seoul 2 _ Hnn eq_refl).
Defined.

Ltac solve_unsupported :=
  rewrite supported_tags_cases;
  let H := fresh in intros H; repeat (destruct H as [H|H]); discriminate H.

(** C4. For every column sequence holding a column whose [Type] is outside
    the twelve supported tags, [MakeBuffer] does not fail: it returns a
    buffer of full length in which that column's slot is nil and the slot
    of every column with a supported tag is allocated as usual. *)
Theorem MakeBuffer_unsupported_slot (cols : Columns) (i : nat) (c : Column) :
  no_nil cols →
  cols !! i = Some (Some c) →
  Type_ c ∉ supported_tags →
  ∃ rec,
    MakeBuffer cols = Some rec ∧
    length rec = length cols ∧
    rec !! i = Some Go.Nil ∧
    ∀ j d, cols !! j = Some (Some d) → Type_ d ∈ supported_tags →
      ∃ k, spec_storage_kind (Type_ d) = Some k ∧ rec !! j = Some (Go.New k).
Proof.
  intros Hnn Hc Htag.
  destruct (MakeBuffer_spec cols Hnn) as (rec & Hrun & Hlen & Hrec).
  exists rec. split_and!; [done..| |].
  - by rewrite (Hrec i c Hc), (switch_value_unsupported _ Htag).
  - intros j d Hd Hsup.
    destruct (switch_value_supported _ Hsup) as (k & Hk & Hv).
    exists k. split; [done|]. by rewrite (Hrec j d Hd), Hv.
Qed.

Lemma MakeBuffer_unsupported_slot_witness :
  no_nil sample_cols ∧ ("INT32" ∉ supported_tags) ∧
  ∃ rec,
    MakeBuffer sample_cols = Some rec ∧
    length rec = 5 ∧
    rec !! 3 = Some Go.Nil ∧
    ∀ j d, sample_cols !! j = Some (Some d) → Type_ d ∈ supported_tags →
      ∃ k, spec_storage_kind (Type_ d) = Some k ∧ rec !! j = Some (Go.New k).
Proof.
  assert (Hnn : no_nil sample_cols) by solve_no_nil.
  assert (Htag : "INT32" ∉ supported_tags) by solve_unsupported.
  split_and!; [done..|].
  exact (MakeBuffer_unsupported_slot sample_cols 3 _ Hnn eq_refl Htag).
Defined.

(** C10. The storage kind of a slot depends only on the column's [Type]:
    for any two column sequences and any two positions holding columns of
    equal [Type], the two buffers have slots of the same kind there,
    whatever the names, sizes, lengths and neighbouring columns are. *)
Theorem MakeBuffer_kind_by_Type
    (cols cols' : Columns) (i j : nat) (c c' : Column) :
  no_nil cols → no_nil cols' →
  cols !! i = Some (Some c) → cols' !! j = Some (Some c') →
  Type_ c = Type_ c' →
  ∃ rec rec' v v',
    MakeBuffer cols = Some rec ∧ MakeBuffer cols' = Some rec' ∧
    rec !! i = Some v ∧ rec' !! j = Some v' ∧
    Go.kind v = Go.kind v'.
Proof.
  intros Hnn Hnn' Hc Hc' Hty.
  destruct (MakeBuffer_spec cols Hnn) as (rec & Hrun & _ & Hrec).
  destruct (MakeBuffer_spec cols' Hnn') as (rec' & Hrun' & _ & Hrec').
  eexists rec, rec', _, _. split_and!; [done..| | |].
  - exact (Hrec i c Hc).
  - exact (Hrec' j c' Hc').
  - by rewrite Hty.
Qed.

Lemma MakeBuffer_kind_by_Type_witness :
  no_nil sample_cols ∧ no_nil sample_other ∧
  ∃ rec rec' v v',
    MakeBuffer sample_cols = Some rec ∧ MakeBuffer sample_other = Some rec' ∧
    rec !! 1 = Some v ∧ rec' !! 1 = Some v' ∧
    Go.kind v = Go.kind v'.
Proof.
  assert (Hnn : no_nil sample_cols) by solve_no_nil.
  assert (Hnn' : no_nil sample_other) by solve_no_nil.
  split_and!; [done..|].
  exact (MakeBuffer_kind_by_Type sample_cols sample_other 1 1 _ _
           Hnn Hnn' eq_refl eq_refl eq_refl).
Defined.

(** ** The error sentinels *)

Lemma Error_fresh text (h h' : Go.heap) :
  Go.Error (Some (length h)) (h ++ {| Go.s := text |} :: h') = Some text.
Proof.
  unfold Go.Error. simpl.
  by rewrite (list_lookup_middle h h' _ (length h) eq_refl).
Qed.

(** C7. After package initialisation, from any heap: the two sentinels are
    non-nil, each compares equal to itself, the two compare unequal in
    either order, and the comparison is by identity, not by text: it reads
    no heap cell, and two values made by [errors.New] from one and the same
    text still compare unequal. *)
Theorem sentinels_identity_comparable (h : Go.heap) :
  let v := fst (init h) in
  let h' := snd (init h) in
  Go.error_eq (ErrUserCancel v) (ErrUserCancel v) = true ∧
  Go.error_eq (ErrNotImplemented v) (ErrNotImplemented v) = true ∧
  Go.error_eq (ErrUserCancel v) (ErrNotImplemented v) = false ∧
  Go.error_eq (ErrNotImplemented v) (ErrUserCancel v) = false ∧
  Go.error_eq (ErrUserCancel v) None = false ∧
  Go.error_eq (ErrNotImplemented v) None = false ∧
  Go.Error (ErrUserCancel v) h' = Some "user cancel" ∧
  Go.Error (ErrNotImplemented v) h' = Some "not implemented" ∧
  ∀ text h0,
    let r1 := Go.errors_New text h0 in
    let r2 := Go.errors_New text (snd r1) in
    Go.error_eq (fst r1) (fst r2) = false ∧
    Go.Error (fst r1) (snd r2) = Go.Error (fst r2) (snd r2).
Proof.
  intros v h'. subst v h'. unfold init, Go.errors_New.
  cbn [fst snd ErrUserCancel ErrNotImplemented Go.error_eq].
  split_and!.
  - apply Nat.eqb_refl.
  - apply Nat.eqb_refl.
  - apply Nat.eqb_neq. rewrite length_app. simpl. lia.
  - apply Nat.eqb_neq. rewrite length_app. simpl. lia.
  - done.
  - done.
  - rewrite <- app_assoc. apply Error_fresh.
  - apply (Error_fresh _ (h ++ [_]) []).
  - intros text h0. split.
    + apply Nat.eqb_neq. rewrite length_app. simpl. lia.
    + rewrite (Error_fresh _ (h0 ++ [_]) []).
      rewrite <- app_assoc. apply Error_fresh.
Qed.

(** ** Exact matching of tags *)

Lemma lower_supported tag : tag ∈ supported_tags → lower tag = tag.
Proof. intros H. each_tag H; reflexivity. Qed.

Lemma append_nil_l t : "" +:+ t = t.
Proof. reflexivity. Qed.

Lemma append_cons x a b : String x a +:+ b = String x (a +:+ b).
Proof. reflexivity. Qed.

Lemma lower_app a b : lower (a +:+ b) = lower a +:+ lower b.
Proof.
  induction a as [|x a IH]; [done|].
  rewrite append_cons. simpl. by rewrite append_cons, IH.
Qed.

Lemma lower_empty t : lower t = "" → t = "".
Proof. by destruct t. Qed.

Lemma append_empty_r t : t +:+ "" = t.
Proof. induction t as [|x t IH]; [done|]. by rewrite append_cons, IH. Qed.

(** No supported tag occurs inside another one, and inside itself it
    occurs only as the whole string. *)
Lemma supported_infix tag tag' p q :
  tag ∈ supported_tags → tag' ∈ supported_tags →
  p +:+ tag +:+ q = tag' → p = "" ∧ q = "".
Proof.
  intros Ht Ht'. each_tag Ht; each_tag Ht'; intros H;
    repeat (destruct p as [|? p];
            rewrite ?append_cons, ?append_nil_l in H;
            [by simplify_eq | first [discriminate H | injection H as _ H]]).
Qed.

Lemma near_miss_unsupported tag t :
  tag ∈ supported_tags → near_miss tag t → t ∉ supported_tags.
Proof.
  intros Htag [Hne (pre & core & post & -> & Hcore)] Hsup.
  pose proof (lower_supported _ Hsup) as Hlow.
  rewrite !lower_app, Hcore in Hlow.
  destruct (supported_infix _ _ _ _ Htag Hsup Hlow) as [Hpre Hpost].
  apply lower_empty in Hpre, Hpost. subst pre post.
  rewrite append_nil_l, append_empty_r in Hne, Hsup.
  apply lower_supported in Hsup. congruence.
Qed.

(** The slot is allocated exactly when the tag is, character for
    character, one of the twelve. *)
Lemma switch_value_exact ty :
  is_Some (switch_value ty) ↔ ty ∈ supported_tags.
Proof.
  split.
  - intros Hv. destruct (decide (ty ∈ supported_tags)) as [|Hn]; [done|].
    rewrite (switch_value_unsupported _ Hn) in Hv. by destruct Hv.
  - intros Hs. destruct (switch_value_supported _ Hs) as (k & _ & ->). eauto.
Qed.

(** C9. Tag matching in [MakeBuffer] is exact and case-sensitive: a column
    whose [Type] is not a supported tag but contains one up to letter case,
    possibly with characters around it (as in "INT32", "Datetime" or
    "int32 "), gets a nil slot, as any unknown tag does. *)
Theorem MakeBuffer_near_miss_slot
    (cols : Columns) (i : nat) (c : Column) (tag : string) :
  no_nil cols →
  cols !! i = Some (Some c) →
  tag ∈ supported_tags →
  near_miss tag (Type_ c) →
  (Type_ c ∉ supported_tags) ∧
  ∃ rec, MakeBuffer cols = Some rec ∧ rec !! i = Some Go.Nil.
Proof.
  intros Hnn Hc Htag Hmiss.
  pose proof (near_miss_unsupported _ _ Htag Hmiss) as Hun.
  split; [done|].
  destruct (MakeBuffer_spec cols Hnn) as (rec & Hrun & _ & Hrec).
  exists rec. split; [done|].
  by rewrite (Hrec i c Hc), (switch_value_unsupported _ Hun).
Qed.

Lemma near_miss_INT32 : near_miss "int32" "INT32".
Proof. split; [done|]. by exists "", "INT32", "". Qed.

Lemma near_miss_Datetime : near_miss "datetime" "Datetime".
Proof. split; [done|]. by exists "", "Datetime", "". Qed.

Lemma near_miss_int32_space : near_miss "int32" "int32 ".
Proof. split; [done|]. by exists "", "int32", " ". Qed.

Lemma MakeBuffer_near_miss_slot_witness :
  no_nil sample_cols ∧ "int32" ∈ supported_tags ∧
  near_miss "int32" "int32 " ∧
  ("int32 " ∉ supported_tags) ∧
  ∃ rec, MakeBuffer sample_cols = Some rec ∧ rec !! 4 = Some Go.Nil.
Proof.
  assert (Hnn : no_nil sample_cols) by solve_no_nil.
  assert (Htag : "int32" ∈ supported_tags).
  { apply supported_tags_cases. tauto. }
  split_and!; [done|done|exact near_miss_int32_space|..];
    apply (MakeBuffer_near_miss_slot sample_cols 4 _ "int32"
             Hnn eq_refl Htag near_miss_int32_space).
Defined.

(** ** The methods as whole-list functions *)

Lemma no_nil_refs (cs : list Column) : no_nil (Some <$> cs).
Proof. apply Forall_fmap, Forall_true. intros c. by exists c. Qed.

Lemma pointees_refs (cs : list Column) : pointees (Some <$> cs) = cs.
Proof.
  unfold pointees. induction cs as [|c cs IH]; [done|].
  simpl. f_equal. exact IH.
Qed.

Lemma no_nil_pointees cols : no_nil cols → cols = Some <$> pointees cols.
Proof.
  unfold no_nil, pointees. induction 1 as [|p cols [c ->] _ IH]; [done|].
  simpl. f_equal. exact IH.
Qed.

Lemma not_no_nil_entry cols : ¬ no_nil cols → ∃ i, cols !! i = Some None.
Proof.
  unfold no_nil. intros Hn. apply not_Forall_Exists in Hn; [|apply _].
  apply Exists_exists in Hn as (p & Hin & Hp).
  apply list_elem_of_lookup in Hin as [i Hi]. exists i.
  destruct p as [c|]; [|done]. destruct Hp. by exists c.
Qed.

Lemma pointwise_fmap {A B} (f : A → B) (cs : list A) (l : list B) :
  length l = length (Some <$> cs) →
  (∀ j c, (Some <$> cs) !! j = Some (Some c) → l !! j = Some (f c)) →
  l = f <$> cs.
Proof.
  rewrite length_fmap. intros Hlen Hl. apply list_eq. intros j.
  rewrite list_lookup_fmap. destruct (cs !! j) as [c|] eqn:Hc; simpl.
  - apply Hl. by rewrite list_lookup_fmap, Hc.
  - apply lookup_ge_None. apply lookup_ge_None in Hc. lia.
Qed.

Lemma Names_refs (cs : list Column) :
  Names (Some <$> cs) = Some (Name <$> cs).
Proof.
  destruct (Names_spec _ (no_nil_refs cs)) as (l & -> & Hlen & Hl).
  f_equal. by apply pointwise_fmap.
Qed.

Lemma Types_refs (cs : list Column) :
  Types (Some <$> cs) = Some (Type_ <$> cs).
Proof.
  destruct (Types_spec _ (no_nil_refs cs)) as (l & -> & Hlen & Hl).
  f_equal. by apply pointwise_fmap.
Qed.

Lemma NamesWithTimeLocation_refs (cs : list Column) tz :
  NamesWithTimeLocation (Some <$> cs) tz =
  Some ((λ c, if String.eqb (Type_ c) "datetime"
              then Go.Sprintf_s_paren_s (Name c) (Go.Location_String tz)
              else Name c) <$> cs).
Proof.
  destruct (NamesWithTimeLocation_spec _ tz (no_nil_refs cs))
    as (l & -> & Hlen & Hl).
  f_equal. by apply (pointwise_fmap (λ c, if String.eqb (Type_ c) "datetime"
              then Go.Sprintf_s_paren_s (Name c) (Go.Location_String tz)
              else Name c)).
Qed.

Lemma MakeBuffer_refs (cs : list Column) :
  MakeBuffer (Some <$> cs) =
  Some ((λ c, default Go.Nil (switch_value (Type_ c))) <$> cs).
Proof.
  destruct (MakeBuffer_spec _ (no_nil_refs cs)) as (l & -> & Hlen & Hl).
  f_equal.
  by apply (pointwise_fmap (λ c, default Go.Nil (switch_value (Type_ c)))).
Qed.

(** X1. Each of the four methods returns exactly when no entry of the
    sequence is a nil pointer; with a nil entry the field selection
    panics, whatever the other entries are. *)
Theorem methods_return_iff_no_nil (cols : Columns) (tz : option Go.Location) :
  (is_Some (Names cols) ↔ no_nil cols) ∧
  (is_Some (Types cols) ↔ no_nil cols) ∧
  (is_Some (MakeBuffer cols) ↔ no_nil cols) ∧
  (is_Some (NamesWithTimeLocation cols tz) ↔ no_nil cols).
Proof.
  assert (Hpanic : ¬ no_nil cols →
    Names cols = None ∧ Types cols = None ∧ MakeBuffer cols = None ∧
    NamesWithTimeLocation cols tz = None).
  { intros Hn. destruct (not_no_nil_entry cols Hn) as [i Hi].
    exact (nil_entry_panics cols i tz Hi). }
  assert (Hdec : no_nil cols ∨ ¬ no_nil cols).
  { unfold no_nil. destruct (decide (Forall is_Some cols)); auto. }
  split_and!; split.
  - intros [l Hl]. destruct Hdec as [|Hn]; [done|].
    destruct (Hpanic Hn) as (? & _). congruence.
  - intros Hnn. destruct (Names_spec cols Hnn) as (l & -> & _). eauto.
  - intros [l Hl]. destruct Hdec as [|Hn]; [done|].
    destruct (Hpanic Hn) as (_ & ? & _). congruence.
  - intros Hnn. destruct (Types_spec cols Hnn) as (l & -> & _). eauto.
  - intros [l Hl]. destruct Hdec as [|Hn]; [done|].
    destruct (Hpanic Hn) as (_ & _ & ? & _). congruence.
  - intros Hnn. destruct (MakeBuffer_spec cols Hnn) as (l & -> & _). eauto.
  - intros [l Hl]. destruct Hdec as [|Hn]; [done|].
    destruct (Hpanic Hn) as (_ & _ & _ & ?). congruence.
  - intros Hnn.
    destruct (NamesWithTimeLocation_spec cols tz Hnn) as (l & -> & _). eauto.
Qed.

(** X2. On a sequence of non-nil pointers, [Names] and [Types] return the
    name, resp. the type, of every column, in the order of the sequence:
    entry [i] of the result belongs to column [i]. *)
Theorem Names_Types_in_order (cs : list Column) :
  Names (Some <$> cs) = Some (Name <$> cs) ∧
  Types (Some <$> cs) = Some (Type_ <$> cs).
Proof. split; [apply Names_refs | apply Types_refs]. Qed.

(** Either every entry is a pointer to a column, or some entry is nil. *)
Lemma cols_cases (cols : Columns) :
  (∃ cs, cols = Some <$> cs) ∨ (∃ i, cols !! i = Some None).
Proof.
  destruct (decide (Forall is_Some cols)) as [Hnn|Hn].
  - left. exists (pointees cols). by apply no_nil_pointees.
  - right. by apply not_no_nil_entry.
Qed.

Lemma MakeBuffer_refs_types (cs : list Column) :
  MakeBuffer (Some <$> cs) =
  Some ((λ t, default Go.Nil (switch_value t)) <$> (Type_ <$> cs)).
Proof. rewrite MakeBuffer_refs. f_equal. by rewrite <- list_fmap_compose. Qed.

(** X3. The buffer is determined by the list of types: two sequences on
    which [Types] agrees (be it a result or a panic) get the same outcome
    from [MakeBuffer]. *)
Theorem MakeBuffer_determined_by_Types (cols cols' : Columns) :
  Types cols = Types cols' → MakeBuffer cols = MakeBuffer cols'.
Proof.
  intros Hty.
  destruct (cols_cases cols) as [[cs ->]|[i Hi]];
    destruct (cols_cases cols') as [[cs' ->]|[i' Hi']].
  - rewrite !Types_refs in Hty. injection Hty as Hty.
    rewrite !MakeBuffer_refs_types. by rewrite Hty.
  - destruct (nil_entry_panics _ _ None Hi') as (_ & Hp & _).
    rewrite Types_refs, Hp in Hty. discriminate Hty.
  - destruct (nil_entry_panics _ _ None Hi) as (_ & Hp & _).
    rewrite Types_refs, Hp in Hty. discriminate Hty.
  - destruct (nil_entry_panics _ _ None Hi) as (_ & _ & -> & _).
    by destruct (nil_entry_panics _ _ None Hi') as (_ & _ & -> & _).
Qed.

Lemma MakeBuffer_determined_by_Types_witness :
  Types sample_other = Types sample_renamed ∧
  MakeBuffer sample_other = MakeBuffer sample_renamed.
Proof.
  split; [reflexivity|].
  exact (MakeBuffer_determined_by_Types sample_other sample_renamed eq_refl).
Defined.

Lemma app_nil_entry (a b : Columns) :
  (∃ i, a !! i = Some None) ∨ (∃ i, b !! i = Some None) →
  ∃ i, (a ++ b) !! i = Some None.
Proof.
  intros [[i Hi]|[i Hi]].
  - exists i. by apply lookup_app_l_Some.
  - exists (length a + i). rewrite lookup_app_r by lia.
    by replace (length a + i - length a) with i by lia.
Qed.

(** X4. The methods work entry by entry: on a concatenation each one
    returns the concatenation of its results on the two parts, and panics
    as soon as it panics on one of the parts. *)
Theorem methods_app (a b : Columns) (tz : option Go.Location) :
  Names (a ++ b) = (xs ← Names a; ys ← Names b; Some (xs ++ ys)) ∧
  Types (a ++ b) = (xs ← Types a; ys ← Types b; Some (xs ++ ys)) ∧
  MakeBuffer (a ++ b) =
    (xs ← MakeBuffer a; ys ← MakeBuffer b; Some (xs ++ ys)) ∧
  NamesWithTimeLocation (a ++ b) tz =
    (xs ← NamesWithTimeLocation a tz;
     ys ← NamesWithTimeLocation b tz; Some (xs ++ ys)).
Proof.
  destruct (cols_cases a) as [[cs ->]|Ha].
  - destruct (cols_cases b) as [[cs' ->]|Hb].
    + rewrite <- fmap_app.
      rewrite !Names_refs, !Types_refs, !MakeBuffer_refs,
        !NamesWithTimeLocation_refs.
      simpl. by rewrite !fmap_app.
    + destruct (app_nil_entry (Some <$> cs) b (or_intror Hb)) as [i Hi].
      destruct Hb as [j Hj].
      destruct (nil_entry_panics _ _ tz Hi) as (-> & -> & -> & ->).
      destruct (nil_entry_panics _ _ tz Hj) as (-> & -> & -> & ->).
      rewrite !Names_refs, !Types_refs, !MakeBuffer_refs,
        !NamesWithTimeLocation_refs.
      done.
  - destruct (app_nil_entry a b (or_introl Ha)) as [i Hi].
    destruct Ha as [j Hj].
    destruct (nil_entry_panics _ _ tz Hi) as (-> & -> & -> & ->).
    by destruct (nil_entry_panics _ _ tz Hj) as (-> & -> & -> & ->).
Qed.

(** X5. When no column of the sequence has type "datetime",
    [NamesWithTimeLocation] gives, for every time zone, the very outcome of
    [Names]. *)
Theorem NamesWithTimeLocation_no_datetime
    (cols : Columns) (tz : option Go.Location) :
  (∀ c, Some c ∈ cols → Type_ c ≠ "datetime") →
  NamesWithTimeLocation cols tz = Names cols.
Proof.
  intros Hno. destruct (cols_cases cols) as [[cs ->]|[i Hi]].
  - rewrite NamesWithTimeLocation_refs, Names_refs. f_equal.
    apply list_fmap_ext. intros j c Hc.
    destruct (String.eqb_spec (Type_ c) "datetime") as [Hty|]; [|done].
    destruct (Hno c); [|done].
    apply (list_elem_of_lookup_2 _ j). by rewrite list_lookup_fmap, Hc.
  - destruct (nil_entry_panics _ _ tz Hi) as (Hn & _ & _ & Hw).
    unfold Go.panics in *. congruence.
Qed.

Lemma NamesWithTimeLocation_no_datetime_witness :
  (∀ c, Some c ∈ sample_plain → Type_ c ≠ "datetime") ∧
  NamesWithTimeLocation sample_plain Seoul = Names sample_plain.
Proof.
  assert (H : ∀ c, Some c ∈ sample_plain → Type_ c ≠ "datetime").
  { intros c Hc. unfold sample_plain in Hc.
    rewrite !elem_of_cons, elem_of_nil in Hc.
    destruct Hc as [Hc|[Hc|[]]]; injection Hc as ->; discriminate. }
  split; [exact H|].
  exact (NamesWithTimeLocation_no_datetime sample_plain Seoul H).
Defined.

Lemma append_self a b : a +:+ b = a → b = "".
Proof.
  induction a as [|x a IH]; [done|].
  rewrite append_cons. intros H. injection H as H. auto.
Qed.

Lemma Sprintf_s_paren_s_longer a b : Go.Sprintf_s_paren_s a b ≠ a.
Proof. unfold Go.Sprintf_s_paren_s. intros H%append_self. discriminate H. Qed.

(** X6. The entries of [NamesWithTimeLocation] and [Names] differ exactly
    at the columns of type "datetime": there the annotated entry is never
    equal to the bare name, whatever the name and the zone label are, the
    empty label included. *)
Theorem NamesWithTimeLocation_differs_iff_datetime
    (cols : Columns) (tz : option Go.Location) (i : nat) (c : Column) :
  no_nil cols →
  cols !! i = Some (Some c) →
  ∃ shown names,
    NamesWithTimeLocation cols tz = Some shown ∧
    Names cols = Some names ∧
    (shown !! i ≠ names !! i ↔ Type_ c = "datetime").
Proof.
  intros Hnn Hc.
  destruct (NamesWithTimeLocation_spec cols tz Hnn) as (shown & ? & _ & Hs).
  destruct (Names_spec cols Hnn) as (names & ? & _ & Hn).
  exists shown, names. split_and!; [done..|].
  rewrite (Hs i c Hc), (Hn i c Hc).
  destruct (String.eqb_spec (Type_ c) "datetime") as [Hty|Hty].
  - split; [done|]. intros _ Heq. injection Heq as Heq.
    by apply Sprintf_s_paren_s_longer in Heq.
  - split; [|done]. intros Hdiff. by destruct Hdiff.
Qed.

Lemma NamesWithTimeLocation_differs_iff_datetime_witness :
  no_nil sample_cols ∧
  ∃ shown names,
    NamesWithTimeLocation sample_cols None = Some shown ∧
    Names sample_cols = Some names ∧
    (shown !! 2 ≠ names !! 2 ↔ "datetime" = "datetime").
Proof.
  assert (Hnn : no_nil sample_cols) by solve_no_nil.
  split; [done|].
  exact (NamesWithTimeLocation_differs_iff_datetime
           sample_cols None 2 _ Hnn eq_refl).
Defined.

Lemma switch_value_kind_collision t1 t2 :
  t1 ∈ supported_tags → t2 ∈ supported_tags → t1 ≠ t2 →
  Go.kind (default Go.Nil (switch_value t1)) =
  Go.kind (default Go.Nil (switch_value t2)) ↔
  (t1 = "ipv4" ∧ t2 = "ipv6") ∨ (t1 = "ipv6" ∧ t2 = "ipv4").
Proof.
  intros H1 H2. each_tag H1; each_tag H2; intros Hne; try done;
    (split; [intros H; first [discriminate H | auto]
            | intros [[? ?]|[? ?]]; first [discriminate | reflexivity]]).
Qed.

(** X7. Two columns with different supported tags get slots of different
    storage kinds, with one exception: "ipv4" and "ipv6" both get an IP
    address cell, so the buffer alone does not tell them apart. *)
Theorem MakeBuffer_kind_collision
    (cols : Columns) (i j : nat) (c c' : Column) :
  no_nil cols →
  cols !! i = Some (Some c) → cols !! j = Some (Some c') →
  Type_ c ∈ supported_tags → Type_ c' ∈ supported_tags →
  Type_ c ≠ Type_ c' →
  ∃ rec v v',
    MakeBuffer cols = Some rec ∧ rec !! i = Some v ∧ rec !! j = Some v' ∧
    (Go.kind v = Go.kind v' ↔
     (Type_ c = "ipv4" ∧ Type_ c' = "ipv6") ∨
     (Type_ c = "ipv6" ∧ Type_ c' = "ipv4")).
Proof.
  intros Hnn Hc Hc' Hs Hs' Hne.
  destruct (MakeBuffer_spec cols Hnn) as (rec & Hrun & _ & Hrec).
  eexists rec, _, _. split_and!; [done| | |].
  - exact (Hrec i c Hc).
  - exact (Hrec j c' Hc').
  - by apply switch_value_kind_collision.
Qed.

Lemma MakeBuffer_kind_collision_witness :
  no_nil sample_cols ∧
  ("string" ∈ supported_tags) ∧ ("int32" ∈ supported_tags) ∧
  "string" ≠ "int32" ∧
  ∃ rec v v',
    MakeBuffer sample_cols = Some rec ∧ rec !! 0 = Some v ∧
    rec !! 1 = Some v' ∧
    (Go.kind v = Go.kind v' ↔
     ("string" = "ipv4" ∧ "int32" = "ipv6") ∨
     ("string" = "ipv6" ∧ "int32" = "ipv4")).
Proof.
  assert (Hnn : no_nil sample_cols) by solve_no_nil.
  assert (Hs : "string" ∈ supported_tags).
  { apply supported_tags_cases. tauto. }
  assert (Hs' : "int32" ∈ supported_tags).
  { apply supported_tags_cases. tauto. }
  assert (Hne : "string" ≠ "int32") by discriminate.
  split_and!; [done..|].
  exact (MakeBuffer_kind_collision sample_cols 0 1 _ _
           Hnn eq_refl eq_refl Hs Hs' Hne).
Defined.

(** X8. The sentinels are fresh: an error value made by [errors.New]
    before the package is initialised, or after it, never compares equal
    to either sentinel, even when it carries a sentinel's text; and the
    initialisation leaves the text of an earlier error as it was. *)
Theorem sentinels_fresh
    (h1 h2 : Go.heap) (x : Go.errorString) (text : string) :
  let h := h1 ++ x :: h2 in
  let v := fst (init h) in
  let older : Go.error := Some (length h1) in
  let newer := fst (Go.errors_New text (snd (init h))) in
  Go.error_eq older (ErrUserCancel v) = false ∧
  Go.error_eq older (ErrNotImplemented v) = false ∧
  Go.error_eq newer (ErrUserCancel v) = false ∧
  Go.error_eq newer (ErrNotImplemented v) = false ∧
  Go.Error older h = Some (Go.s x) ∧
  Go.Error older (snd (init h)) = Some (Go.s x) ∧
  Go.Error newer (snd (Go.errors_New text (snd (init h)))) = Some text.
Proof.
  intros h v older newer. subst h v older newer. destruct x as [t].
  unfold init, Go.errors_New.
  cbn [fst snd ErrUserCancel ErrNotImplemented Go.error_eq Go.s].
  split_and!.
  - apply Nat.eqb_neq. rewrite length_app. simpl. lia.
  - apply Nat.eqb_neq. rewrite !length_app. simpl. lia.
  - apply Nat.eqb_neq. rewrite !length_app. simpl. lia.
  - apply Nat.eqb_neq. rewrite !length_app. simpl. lia.
  - apply Error_fresh.
  - rewrite <- !app_assoc. simpl. apply Error_fresh.
  - apply (Error_fresh text _ []).
Qed.
